(** * The Conan recipe of the renderer: version discovery and build phases

    A shallow embedding of [conanfile.py].  The recipe is a Python class
    with four methods: [set_version] (reads a header and extracts three
    numbers with regular expressions), [layout], [generate] and [build]
    (which hand over to helpers of the Conan library).

    Python text is a sequence of Unicode code points; the library helpers
    and the file system are the environment of the recipe and appear as
    oracles whose answers may depend on everything that happened before. *)

From Stdlib Require Import List NArith ZArith Bool String Ascii Lia Permutation.
Import ListNotations.

Set Implicit Arguments.

Open Scope string_scope.
Open Scope list_scope.

(** ** Text *)

Module Text.

(** A Python [str]: a list of code points. *)
Definition char := N.
Definition str := list char.

(** ASCII literals of the source, as text. *)
Definition lit (s : string) : str :=
  map N_of_ascii (list_ascii_of_string s).

(** The two character categories that the patterns of the recipe use, on
    the code points below 256, where they do not depend on the version of
    the Unicode database: whitespace is TAB..CR, FS..US, SPACE, NEL and
    NBSP; the decimal digits are 0..9. *)
Definition latin1_whitespace (c : char) : bool :=
  ((9 <=? c) && (c <=? 13) || (28 <=? c) && (c <=? 32)
   || (c =? 133) || (c =? 160))%N.

Definition latin1_decimal (c : char) : bool :=
  ((48 <=? c) && (c <=? 57))%N.

(** For a [str] pattern, [\s] is the Unicode whitespace test and [\d] the
    Unicode decimal-digit test (category Nd); above 255 both tables belong
    to the interpreter's Unicode database.  No code point is in both. *)
Class CharClasses := {
  whitespace : char -> bool;
  decimal : char -> bool;
  whitespace_not_decimal : forall c, whitespace c = true -> decimal c = false;
  whitespace_latin1 : forall c, (c < 256)%N -> whitespace c = latin1_whitespace c;
  decimal_latin1 : forall c, (c < 256)%N -> decimal c = latin1_decimal c
}.

(** The classes of an interpreter whose text stays below 256. *)
#[export] Instance latin1 : CharClasses.
Proof.
  refine {| whitespace := latin1_whitespace; decimal := latin1_decimal;
            whitespace_not_decimal := _;
            whitespace_latin1 := fun _ _ => eq_refl;
            decimal_latin1 := fun _ _ => eq_refl |}.
  unfold latin1_whitespace, latin1_decimal. intros c H.
  destruct (N.leb_spec 48 c); destruct (N.leb_spec c 57); simpl; try reflexivity.
  exfalso.
  rewrite ?orb_true_iff, ?andb_true_iff, ?N.leb_le, ?N.eqb_eq in H. lia.
Defined.

(** Longest prefix of characters of a class, and what follows it. *)
Fixpoint take_while (p : char -> bool) (s : str) : str :=
  match s with
  | c :: s' => if p c then c :: take_while p s' else []
  | [] => []
  end.

Fixpoint drop_while (p : char -> bool) (s : str) : str :=
  match s with
  | c :: s' => if p c then drop_while p s' else s
  | [] => []
  end.

(** [starts_with p s]: the first character of [s] exists and is in [p]. *)
Definition starts_with (p : char -> bool) (s : str) : bool :=
  match s with
  | c :: _ => p c
  | [] => false
  end.

End Text.
Export Text.

(** ** The regular expressions of [set_version]

    The three patterns have one shape: a literal name, [\s+], and the
    group [(\d+)].  The matcher below is the backtracking matcher of
    Python's [re] for that shape: a greedy repetition first takes as many
    characters as it can and gives them back one at a time while the rest
    of the pattern fails. *)

Module Re.

Section Matcher.
Context {cc : CharClasses}.
Variable A : Type.

(** Greedy [p*] followed by the continuation [k], which receives the
    characters consumed and the remaining text. *)
Fixpoint star (p : char -> bool) (s : str) (k : str -> str -> option A)
  : option A :=
  match s with
  | c :: s' =>
      if p c then
        match star p s' (fun m r => k (c :: m) r) with
        | Some x => Some x
        | None => k [] s
        end
      else k [] s
  | [] => k [] []
  end.

(** Greedy [p+]: one character of the class, then [p*]. *)
Definition plus (p : char -> bool) (s : str) (k : str -> str -> option A)
  : option A :=
  match s with
  | c :: s' => if p c then star p s' (fun m r => k (c :: m) r) else None
  | [] => None
  end.

(** The literal prefix of the pattern. *)
Fixpoint literal (name s : str) (k : str -> option A) : option A :=
  match name, s with
  | [], _ => k s
  | a :: name', c :: s' => if N.eqb a c then literal name' s' k else None
  | _ :: _, [] => None
  end.

End Matcher.

Section Search.
Context {cc : CharClasses}.

(** [name\s+(\d+)] tried at the start of [s]; the result is group 1. *)
Definition match_here (name s : str) : option str :=
  literal name s (fun s1 =>
    plus whitespace s1 (fun _ s2 =>
      plus decimal s2 (fun digits _ => Some digits))).

(** [re.search]: the leftmost start position at which the pattern
    matches.  [None] is Python's [None] (no match object). *)
Fixpoint search (name s : str) : option str :=
  match match_here name s with
  | Some g => Some g
  | None =>
      match s with
      | [] => None
      | _ :: s' => search name s'
      end
  end.

End Search.
End Re.

(** ** Python outcomes and the environment of the recipe *)

Module Py.

(** Exceptions, all of them deriving from [Exception]: the one the
    recipe's own code can cause; an error that carries the name of a build
    phase, the exit code of its command and the captured output; and any
    other exception of the library or the interpreter, by class name and
    message.  Which of them a helper raises is the library's business. *)
Inductive exn :=
| AttributeError
| BuildInvocationError (phase : string) (code : Z) (output : str)
| Error (class_name : string) (message : str).

Inductive outcome (A : Type) :=
| Returned (a : A)
| Raised (e : exn).
Arguments Raised {A} e.

End Py.
Export Py.

(** The recipe object: the attributes that the class body sets, and
    [version], which [set_version] assigns ([None] until then). *)
Record Recipe := {
  name : string;
  license : string;
  author : string;
  settings : list string;
  requires : list string;
  build_requires : list string;
  version : option str
}.

Definition with_version (self : Recipe) (v : option str) : Recipe :=
  {| name := name self; license := license self; author := author self;
     settings := settings self; requires := requires self;
     build_requires := build_requires self; version := v |}.

(** The library helpers that the recipe calls: [cmake_layout], the
    [generate] methods of [CMakeToolchain] and [CMakeDeps], and the
    [configure] and [build] methods of [CMake]. *)
Inductive Helper :=
| CMakeLayout
| ToolchainGenerate
| DepsGenerate
| Configure
| Build.

(** What the recipe asks of its environment, in the order asked. *)
Inductive Event :=
| Loaded (path : string)
| Called (h : Helper).

(** The environment: the file system behind [tools.load] and the library
    behind the helpers.  A request returns or raises, and which of the two
    may depend on the recipe object handed over and on every request made
    so far. *)
Class Environment := {
  load_outcome : string -> list Event -> outcome str;
  helper_outcome : Helper -> Recipe -> list Event -> outcome unit
}.

(** A computation: from the requests made so far to the requests made
    after it, and how it ended. *)
Definition M (A : Type) : Type := list Event -> list Event * outcome A.

Definition ret {A} (a : A) : M A := fun tr => (tr, Returned a).

Definition raise {A} (e : exn) : M A := fun tr => (tr, Raised e).

Definition bind {A B} (m : M A) (f : A -> M B) : M B :=
  fun tr =>
    match m tr with
    | (tr', Returned a) => f a tr'
    | (tr', Raised e) => (tr', Raised e)
    end.

Notation "x <- m ;; k" := (bind m (fun x => k))
  (at level 61, m at next level, right associativity).
Notation "m ;; k" := (bind m (fun _ => k))
  (at level 61, right associativity).

(** [try: body except Exception as e: handler]. *)
Definition try_except {A} (body : M A) (handler : exn -> M A) : M A :=
  fun tr =>
    match body tr with
    | (tr', Returned a) => (tr', Returned a)
    | (tr', Raised e) => handler e tr'
    end.

(** ** The Conan library, as the recipe uses it *)

Module Conan.
Section Library.
Context {env : Environment}.

(** [tools.load(path)]. *)
Definition load (path : string) : M str :=
  fun tr => (tr ++ [Loaded path], load_outcome path tr).

Definition call (h : Helper) (conanfile : Recipe) : M unit :=
  fun tr => (tr ++ [Called h], helper_outcome h conanfile tr).

(** [cmake_layout(conanfile)]. *)
Definition cmake_layout (conanfile : Recipe) : M unit :=
  call CMakeLayout conanfile.

(** A helper object keeps the recipe it was built for.  Building the
    object and calling its first method are one request to the library:
    an error of either ends the calling phase in the same way. *)
Record CMakeToolchain := new_CMakeToolchain { toolchain_conanfile : Recipe }.
Record CMakeDeps := new_CMakeDeps { deps_conanfile : Recipe }.
Record CMake := new_CMake { cmake_conanfile : Recipe }.

Definition toolchain_generate (tc : CMakeToolchain) : M unit :=
  call ToolchainGenerate (toolchain_conanfile tc).

Definition deps_generate (deps : CMakeDeps) : M unit :=
  call DepsGenerate (deps_conanfile deps).

Definition cmake_configure (cmake : CMake) : M unit :=
  call Configure (cmake_conanfile cmake).

Definition cmake_build (cmake : CMake) : M unit :=
  call Build (cmake_conanfile cmake).

End Library.
End Conan.

(** ** The recipe *)

(** The class body. *)
Definition ConanRecipe : Recipe :=
  {| name := "renderer";
     license := "MIT";
     author := "siech0";
     settings := ["os"; "compiler"; "build_type"; "arch"];
     requires := ["glm/1.0.1"; "vulkan-memory-allocator/3.0.1"; "glfw/3.4"];
     build_requires := ["gtest/1.16.0"; "benchmark/1.9.1"];
     version := None |}.

Section Methods.
Context {cc : CharClasses} {env : Environment}.

(** [m.group(1)] on the result of [re.search]: [None] has no attribute
    [group]. *)
Definition group1 (m : option str) : M str :=
  match m with
  | Some g => ret g
  | None => raise AttributeError
  end.

(** ["{}.{}.{}".format(a, b, c)] on three strings. *)
Definition format3 (a b c : str) : str :=
  a ++ lit "." ++ b ++ lit "." ++ c.

Definition set_version (self : Recipe) : M Recipe :=
  let filepath := "projects/core/include/core/version.hpp" in
  try_except
    (data <- Conan.load filepath ;;
     major_version <- group1 (Re.search (lit "RENDERER_VERSION_MAJOR") data) ;;
     minor_version <- group1 (Re.search (lit "RENDERER_VERSION_MINOR") data) ;;
     patch_version <- group1 (Re.search (lit "RENDERER_VERSION_PATCH") data) ;;
     let version_string := format3 major_version minor_version patch_version in
     ret (with_version self (Some version_string)))
    (fun e => ret (with_version self None)).

Definition layout (self : Recipe) : M unit :=
  Conan.cmake_layout self.

Definition generate (self : Recipe) : M unit :=
  let tc := Conan.new_CMakeToolchain self in
  Conan.toolchain_generate tc ;;
  let deps := Conan.new_CMakeDeps self in
  Conan.deps_generate deps.

Definition build (self : Recipe) : M unit :=
  let cmake := Conan.new_CMake self in
  Conan.cmake_configure cmake ;;
  Conan.cmake_build cmake.

End Methods.

(** ** What the claims speak of *)

Section Vocabulary.
Context {cc : CharClasses}.

(** A non-empty run of characters of one class. *)
Definition run (p : char -> bool) (s : str) : Prop :=
  s <> [] /\ Forall (fun c => p c = true) s.

(** [name], whitespace and a digit run stand in [data] right after [pre]. *)
Definition occurrence (name data pre ws ds post : str) : Prop :=
  data = pre ++ name ++ ws ++ ds ++ post /\
  run whitespace ws /\ run decimal ds.

(** The marker [name] is in [data], followed by whitespace and an integer. *)
Definition has_match (name data : str) : Prop :=
  exists pre ws ds post, occurrence name data pre ws ds post.

(** [ds] is the whole digit run of the first such place in [data]. *)
Definition first_match (name data ds : str) : Prop :=
  exists pre ws post,
    occurrence name data pre ws ds post /\
    starts_with decimal post = false /\
    forall pre' ws' ds' post',
      occurrence name data pre' ws' ds' post' ->
      List.length pre <= List.length pre'.

(** The matcher without its search for a split: the digits group is the
    whole digit run, if there is one, *)
Definition digits_here (s : str) : option str :=
  if starts_with decimal s then Some (take_while decimal s) else None.

(** and it comes after the whole whitespace run. *)
Definition value_here (s : str) : option str :=
  if starts_with whitespace s then digits_here (drop_while whitespace s)
  else None.

End Vocabulary.

Definition version_header : string := "projects/core/include/core/version.hpp".
Definition MAJOR : str := lit "RENDERER_VERSION_MAJOR".
Definition MINOR : str := lit "RENDERER_VERSION_MINOR".
Definition PATCH : str := lit "RENDERER_VERSION_PATCH".

(** The package name of a reference [name/version]. *)
Fixpoint package_name (ref : string) : string :=
  match ref with
  | EmptyString => EmptyString
  | String c rest =>
      if Ascii.eqb c "/" then EmptyString else String c (package_name rest)
  end.

(** The three marker names. *)
Definition marker (name : str) : Prop := In name [MAJOR; MINOR; PATCH].

(** [clash name s]: [name] and [s] differ at a place where both have a
    character, so that [name] is not at the start of [s] whatever follows
    [s]. *)
Fixpoint clash (name s : str) : bool :=
  match name, s with
  | a :: name', c :: s' => if N.eqb a c then clash name' s' else true
  | _, _ => false
  end.

(** [name] clashes with [s ++ tail] at every start position inside [s]. *)
Fixpoint clashes_inside (name s tail : str) : bool :=
  match s with
  | [] => true
  | _ :: s' => clash name (s ++ tail) && clashes_inside name s' tail
  end.

(** The version that a header text resolves to. *)
Definition version_of {cc : CharClasses} (data : str) : option str :=
  match Re.search MAJOR data, Re.search MINOR data, Re.search PATCH data with
  | Some a, Some b, Some c => Some (a ++ lit "." ++ b ++ lit "." ++ c)
  | _, _, _ => None
  end.

(** An environment in which the version header reads as [file] (any other
    path is missing), the configure step ends as [configure] says, and
    every other helper returns. *)
Definition sample_env (file : outcome str) (configure : outcome unit)
  : Environment :=
  {| load_outcome := fun path _ =>
       if String.eqb path version_header then file
       else Raised (Error "FileNotFoundError" (lit path));
     helper_outcome := fun h _ _ =>
       match h with
       | Configure => configure
       | _ => Returned tt
       end |}.

(** The error of a configure command that exited with code 2, as a
    library may raise it: a class name and a message. *)
Definition configure_failed : exn :=
  Error "ConanException" (lit "Error 2 while executing").

(** The library as it is installed.  The recipe imports the package
    [conan.tools] and calls [tools.load(filepath)]; the package has no
    attribute [load] (its loader is [conan.tools.files.load], called with
    the recipe and the path), so the call raises [AttributeError] before
    any file is looked at, whatever the [files] hold. *)
Definition installed_conan (files : string -> option str)
    (helpers : Helper -> Recipe -> list Event -> outcome unit) : Environment :=
  {| load_outcome := fun _ _ => Raised AttributeError;
     helper_outcome := helpers |}.

(** The helpers in [hs] called one after the other on the recipe [self],
    up to and including the first that raises. *)
Fixpoint call_in_order {env : Environment} (hs : list Helper) (self : Recipe)
    (tr : list Event) : list Event * outcome unit :=
  match hs with
  | [] => (tr, Returned tt)
  | h :: hs' =>
      match helper_outcome h self tr with
      | Returned _ => call_in_order hs' self (tr ++ [Called h])
      | Raised e => (tr ++ [Called h], Raised e)
      end
  end.

(** An environment without the version header in which configure
    fails. *)
Definition broken_env : Environment :=
  sample_env (Raised (Error "FileNotFoundError" [])) (Raised configure_failed).

Definition newline : str := [10%N].

(** A line of a header: some text without a capital R (such as
    [#define]), the marker, whitespace, the value, and the end of line. *)
Definition marker_line (before name ws value : str) : str :=
  before ++ name ++ ws ++ value ++ newline.


(** A header with the three definitions, major first. *)
Definition sample_header : str :=
  lit "#define RENDERER_VERSION_MAJOR 1" ++ newline ++
  lit "#define RENDERER_VERSION_MINOR 2" ++ newline ++
  lit "#define RENDERER_VERSION_PATCH 3" ++ newline.

(** A source tree that holds the header of the example. *)
Definition sample_files (path : string) : option str :=
  if String.eqb path version_header then Some sample_header else None.


(** A header with a marker inside a line, a value with leading zeros and
    text after it, and a second definition of the same marker. *)
Definition untidy_header : str :=
  lit "// xRENDERER_VERSION_MAJOR  007abc RENDERER_VERSION_MAJOR 9" ++ newline ++
  lit "RENDERER_VERSION_PATCH 3rc1;RENDERER_VERSION_MINOR" ++ newline ++
  lit " 20" ++ newline.

Ltac show_run := split; [discriminate | repeat constructor].
Ltac show_occurrence := split; [reflexivity | split; show_run].

(** ** The matcher *)

Section MatcherFacts.
Context {cc : CharClasses}.

Lemma take_drop_while p s : take_while p s ++ drop_while p s = s.
Proof.
  induction s as [|c s IH]; simpl; [reflexivity|].
  destruct (p c); simpl; [now rewrite IH | reflexivity].
Qed.

Lemma take_while_all p s : Forall (fun c => p c = true) (take_while p s).
Proof.
  induction s as [|c s IH]; simpl; [constructor|].
  destruct (p c) eqn:E; [constructor; assumption | constructor].
Qed.

Lemma drop_while_stops p s : starts_with p (drop_while p s) = false.
Proof.
  induction s as [|c s IH]; simpl; [reflexivity|].
  destruct (p c) eqn:E; simpl; [exact IH | exact E].
Qed.

Lemma take_while_app p s r :
  Forall (fun c => p c = true) s -> starts_with p r = false ->
  take_while p (s ++ r) = s /\ drop_while p (s ++ r) = r.
Proof.
  intros Hs Hr. induction Hs as [|c s Hc Hs IH]; simpl.
  - destruct r as [|c r]; simpl in *; [split; reflexivity|].
    rewrite Hr. split; reflexivity.
  - rewrite Hc. destruct IH as [-> ->]. split; reflexivity.
Qed.

Lemma take_while_prefix p s r :
  Forall (fun c => p c = true) s ->
  take_while p (s ++ r) = s ++ take_while p r /\
  drop_while p (s ++ r) = drop_while p r.
Proof.
  intros Hs. induction Hs as [|c s Hc Hs IH]; simpl.
  - split; reflexivity.
  - rewrite Hc. destruct IH as [-> ->]. split; reflexivity.
Qed.

(** A greedy repetition whose continuation accepts the longest run stops
    there. *)
Lemma star_longest A p s (k : str -> str -> option A) x :
  k (take_while p s) (drop_while p s) = Some x ->
  Re.star p s k = Some x.
Proof.
  revert k. induction s as [|c s IH]; intros k H; simpl in *; [exact H|].
  destruct (p c); [|exact H].
  rewrite (IH (fun m r => k (c :: m) r) H). reflexivity.
Qed.

(** A continuation that refuses every text starting inside the run is only
    ever satisfied after the longest run: giving characters back is of no
    use. *)
Lemma star_no_backtrack A p s (k : str -> str -> option A) :
  (forall m r, starts_with p r = true -> k m r = None) ->
  Re.star p s k = k (take_while p s) (drop_while p s).
Proof.
  revert k. induction s as [|c s IH]; intros k H; simpl; [reflexivity|].
  destruct (p c) eqn:E; [|reflexivity].
  rewrite (IH (fun m r => k (c :: m) r)) by (intros; apply H; assumption).
  destruct (k (c :: take_while p s) (drop_while p s)) eqn:K; [reflexivity|].
  apply H. exact E.
Qed.

Lemma literal_spec A name s (k : str -> option A) x :
  Re.literal name s k = Some x <->
  exists rest, s = name ++ rest /\ k rest = Some x.
Proof.
  revert s. induction name as [|a name IH]; intros s; simpl.
  - split; [intros H; exists s; auto | intros (r & -> & H); exact H].
  - destruct s as [|c s].
    + split; [discriminate | intros (r & H & _); discriminate].
    + destruct (N.eqb_spec a c) as [->|Hne].
      * rewrite IH. split; intros (r & E & H); exists r; split; auto.
        -- now rewrite E.
        -- now injection E.
      * split; [discriminate|]. intros (r & E & _). injection E as E1 E2.
        congruence.
Qed.

Lemma plus_digits s :
  Re.plus decimal s (fun digits _ => Some digits) = digits_here s.
Proof.
  unfold digits_here. destruct s as [|c s]; simpl; [reflexivity|].
  destruct (decimal c); [|reflexivity].
  apply star_longest. reflexivity.
Qed.

Lemma digits_here_after_space s :
  starts_with whitespace s = true -> digits_here s = None.
Proof.
  unfold digits_here. destruct s as [|c s]; simpl; [reflexivity|].
  intros H. now rewrite (whitespace_not_decimal c H).
Qed.

Lemma plus_value s :
  Re.plus whitespace s
    (fun _ s2 => Re.plus decimal s2 (fun digits _ => Some digits))
  = value_here s.
Proof.
  unfold value_here. destruct s as [|c s]; simpl; [reflexivity|].
  destruct (whitespace c); [|reflexivity].
  rewrite star_no_backtrack.
  - apply plus_digits.
  - intros _ r Hr. rewrite plus_digits. now apply digits_here_after_space.
Qed.

Lemma match_here_value name s ds :
  Re.match_here name s = Some ds <->
  exists rest, s = name ++ rest /\ value_here rest = Some ds.
Proof.
  unfold Re.match_here. rewrite literal_spec.
  split; intros (r & E & H); exists r; split; auto.
  - now rewrite <- plus_value.
  - now rewrite plus_value.
Qed.

Lemma decimal_not_whitespace c : decimal c = true -> whitespace c = false.
Proof.
  intros H. destruct (whitespace c) eqn:E; [|reflexivity].
  rewrite (whitespace_not_decimal c E) in H. discriminate.
Qed.

Lemma run_starts p s r : run p s -> starts_with p (s ++ r) = true.
Proof.
  intros [Hne Hall]. destruct s as [|c s]; [contradiction|].
  simpl. now inversion Hall.
Qed.

Lemma starts_take_while p s :
  starts_with p s = true -> run p (take_while p s).
Proof.
  intros H. split; [|apply take_while_all].
  destruct s as [|c s]; simpl in *; [discriminate|]. now rewrite H.
Qed.

(** With the digit run not known to be whole, the group is the run and the
    digits after it. *)
Lemma value_here_occurs ws ds post :
  run whitespace ws -> run decimal ds ->
  value_here (ws ++ ds ++ post) = Some (ds ++ take_while decimal post).
Proof.
  intros Hws Hds. unfold value_here, digits_here.
  rewrite (@run_starts whitespace ws _ Hws).
  assert (Hs : starts_with whitespace (ds ++ post) = false).
  { destruct Hds as [Hne Hall]. destruct ds as [|c ds]; [contradiction|].
    simpl. apply decimal_not_whitespace. now inversion Hall. }
  destruct (@take_while_app whitespace ws (ds ++ post) (proj2 Hws) Hs) as [_ ->].
  rewrite (@run_starts decimal ds _ Hds).
  now destruct (@take_while_prefix decimal ds post (proj2 Hds)) as [-> _].
Qed.

Lemma value_here_spec rest ds :
  value_here rest = Some ds <->
  exists ws post, rest = ws ++ ds ++ post /\ run whitespace ws /\
                  run decimal ds /\ starts_with decimal post = false.
Proof.
  split.
  - unfold value_here, digits_here.
    destruct (starts_with whitespace rest) eqn:Hw; [|discriminate].
    destruct (starts_with decimal (drop_while whitespace rest)) eqn:Hd;
      [|discriminate].
    intros H. injection H as <-.
    exists (take_while whitespace rest),
           (drop_while decimal (drop_while whitespace rest)).
    rewrite !take_drop_while.
    repeat split; auto using starts_take_while, drop_while_stops.
    + now apply starts_take_while.
    + apply take_while_all.
    + now apply starts_take_while.
    + apply take_while_all.
  - intros (ws & post & -> & Hws & Hds & Hpost).
    rewrite (value_here_occurs post Hws Hds).
    destruct post as [|c post]; simpl in *; [now rewrite app_nil_r|].
    rewrite Hpost. now rewrite app_nil_r.
Qed.

(** The pattern at the start of the text, in the words of the claims. *)
Lemma match_here_spec name s ds :
  Re.match_here name s = Some ds <->
  exists ws post, occurrence name s [] ws ds post /\
                  starts_with decimal post = false.
Proof.
  rewrite match_here_value. split.
  - intros (rest & -> & H). apply value_here_spec in H.
    destruct H as (ws & post & -> & Hws & Hds & Hp).
    exists ws, post. repeat split; auto; apply Hws || apply Hds.
  - intros (ws & post & (E & Hws & Hds) & Hp). simpl in E.
    exists (ws ++ ds ++ post). split; [exact E|].
    apply value_here_spec. exists ws, post. auto.
Qed.

Lemma match_here_occurs name s ws ds post :
  occurrence name s [] ws ds post ->
  Re.match_here name s = Some (ds ++ take_while decimal post).
Proof.
  intros (E & Hws & Hds). simpl in E. apply match_here_value.
  exists (ws ++ ds ++ post). split; [exact E|].
  now apply value_here_occurs.
Qed.

Lemma occurrence_cons name c s pre ws ds post :
  occurrence name s pre ws ds post ->
  occurrence name (c :: s) (c :: pre) ws ds post.
Proof.
  intros (E & H). split; [|exact H]. simpl. now rewrite E.
Qed.

Lemma occurrence_uncons name c c' s pre ws ds post :
  occurrence name (c :: s) (c' :: pre) ws ds post ->
  c' = c /\ occurrence name s pre ws ds post.
Proof.
  intros (E & H). simpl in E. injection E as E1 E2.
  split; [congruence|]. split; assumption.
Qed.

Lemma occurrence_nil name pre ws ds post :
  ~ occurrence name [] pre ws ds post.
Proof.
  intros (E & _ & (Hne & _)). symmetry in E.
  apply app_eq_nil in E as (_ & E). apply app_eq_nil in E as (_ & E).
  apply app_eq_nil in E as (_ & E). apply app_eq_nil in E as (E & _).
  contradiction.
Qed.

(** [search] finds a match whenever the marker has a value. *)
Lemma search_some name s :
  has_match name s -> exists ds, Re.search name s = Some ds.
Proof.
  intros (pre & ws & ds & post & H). revert s H.
  induction pre as [|c pre IH]; intros s H.
  - destruct s; simpl; rewrite (match_here_occurs H); eauto.
  - destruct s as [|c' s]; [now apply occurrence_nil in H|].
    apply occurrence_uncons in H as (-> & H). simpl.
    destruct (Re.match_here name (c' :: s)); eauto.
Qed.

(** [search] returns the whole digit run of the first place. *)
Lemma search_first name s ds :
  Re.search name s = Some ds <-> first_match name s ds.
Proof.
  split.
  - induction s as [|c s IH]; simpl.
    + destruct (Re.match_here name []) eqn:Hm; [|discriminate].
      intros H. injection H as ->. apply match_here_spec in Hm.
      destruct Hm as (ws & post & Hocc & Hp).
      exists [], ws, post. repeat split; auto; try apply Hocc.
      intros. simpl. lia.
    + destruct (Re.match_here name (c :: s)) eqn:Hm.
      * intros H. injection H as ->. apply match_here_spec in Hm.
        destruct Hm as (ws & post & Hocc & Hp).
        exists [], ws, post. repeat split; auto; try apply Hocc.
        intros. simpl. lia.
      * intros H. destruct (IH H) as (pre & ws & post & Hocc & Hp & Hfirst).
        exists (c :: pre), ws, post. split; [now apply occurrence_cons|].
        split; [exact Hp|].
        intros pre' ws' ds' post' H'. destruct pre' as [|c' pre'].
        -- rewrite (match_here_occurs H') in Hm. discriminate.
        -- apply occurrence_uncons in H' as (_ & H').
           simpl. apply le_n_S. eapply Hfirst. exact H'.
  - intros (pre & ws & post & Hocc & Hp & Hfirst). revert s Hocc Hfirst.
    induction pre as [|c pre IH]; intros s Hocc Hfirst.
    + assert (Hm : Re.match_here name s = Some ds).
      { apply match_here_spec. eauto. }
      destruct s; simpl; now rewrite Hm.
    + destruct s as [|c' s]; [now apply occurrence_nil in Hocc|].
      apply occurrence_uncons in Hocc as (-> & Hocc).
      simpl. destruct (Re.match_here name (c' :: s)) as [g|] eqn:Hm.
      * apply match_here_spec in Hm. destruct Hm as (ws' & post' & Hocc' & _).
        specialize (Hfirst _ _ _ _ Hocc'). simpl in Hfirst. lia.
      * apply IH; [exact Hocc|].
        intros pre' ws' ds' post' H'.
        apply (occurrence_cons c') in H'.
        specialize (Hfirst _ _ _ _ H'). simpl in Hfirst. lia.
Qed.

Lemma first_match_unique name s ds ds' :
  first_match name s ds -> first_match name s ds' -> ds = ds'.
Proof.
  intros H H'. apply search_first in H, H'. congruence.
Qed.


End MatcherFacts.

(** ** Version discovery *)

Section VersionFacts.
Context {cc : CharClasses} {env : Environment}.

(** [set_version] in one step: one load of the header, and the version
    the text resolves to. *)
Lemma set_version_run self tr :
  set_version self tr =
  (tr ++ [Loaded version_header],
   Returned (with_version self
               match load_outcome version_header tr with
               | Returned data => version_of data
               | Raised _ => None
               end)).
Proof.
  unfold set_version, try_except, bind, Conan.load, version_of, group1, ret,
    raise, format3, version_header, MAJOR, MINOR, PATCH.
  destruct (load_outcome _ tr) as [data|e]; [|reflexivity].
  destruct (Re.search (lit "RENDERER_VERSION_MAJOR") data); [|reflexivity].
  destruct (Re.search (lit "RENDERER_VERSION_MINOR") data); [|reflexivity].
  destruct (Re.search (lit "RENDERER_VERSION_PATCH") data); reflexivity.
Qed.

(** [set_version] returns, whatever the environment does. *)
Lemma set_version_never_raises self tr :
  exists self', snd (set_version self tr) = Returned self'.
Proof. rewrite set_version_run. eexists. reflexivity. Qed.

Lemma version_of_some data v :
  version_of data = Some v <->
  exists a b c, first_match MAJOR data a /\ first_match MINOR data b /\
                first_match PATCH data c /\
                v = a ++ lit "." ++ b ++ lit "." ++ c.
Proof.
  unfold version_of. split.
  - destruct (Re.search MAJOR data) as [a|] eqn:Ea; [|discriminate].
    destruct (Re.search MINOR data) as [b|] eqn:Eb; [|discriminate].
    destruct (Re.search PATCH data) as [c|] eqn:Ec; [|discriminate].
    intros H. injection H as <-. exists a, b, c.
    repeat split; try apply search_first; assumption.
  - intros (a & b & c & Ha & Hb & Hc & ->).
    apply search_first in Ha, Hb, Hc. now rewrite Ha, Hb, Hc.
Qed.


End VersionFacts.



(** The same when the header is missing. *)
Example set_version_missing_file :
  set_version (cc := latin1)
    (env := sample_env (Raised (Error "FileNotFoundError" [])) (Returned tt))
    ConanRecipe [] =
  ([Loaded version_header], Returned (with_version ConanRecipe None)).
Proof. reflexivity. Qed.

(** What the method does with a text that the load returns: if the text
    holds each of the three markers followed by whitespace and an integer,
    the version is the three integers (the digit run at the first such
    place of each marker) joined by dots. *)
Theorem set_version_resolved {cc : CharClasses} {env : Environment}
    (self : Recipe) (tr : list Event) (data : str) :
  load_outcome version_header tr = Returned data ->
  has_match MAJOR data -> has_match MINOR data -> has_match PATCH data ->
  exists a b c,
    first_match MAJOR data a /\ first_match MINOR data b /\
    first_match PATCH data c /\
    set_version self tr =
    (tr ++ [Loaded version_header],
     Returned (with_version self (Some (a ++ lit "." ++ b ++ lit "." ++ c)))).
Proof.
  intros Hload Ha Hb Hc. rewrite set_version_run, Hload.
  apply search_some in Ha as (a & Ha), Hb as (b & Hb), Hc as (c & Hc).
  exists a, b, c. unfold version_of. rewrite Ha, Hb, Hc.
  repeat split; try apply search_first; assumption.
Qed.

Lemma set_version_resolved_witness :
  exists a b c,
    first_match MAJOR sample_header a /\ first_match MINOR sample_header b /\
    first_match PATCH sample_header c /\
    set_version (cc := latin1)
      (env := sample_env (Returned sample_header) (Returned tt)) ConanRecipe [] =
    ([Loaded version_header],
     Returned (with_version ConanRecipe
                 (Some (a ++ lit "." ++ b ++ lit "." ++ c)))).
Proof.
  apply (@set_version_resolved latin1
           (sample_env (Returned sample_header) (Returned tt)) ConanRecipe []
           sample_header).
  - reflexivity.
  - exists (lit "#define "), (lit " "), (lit "1"),
      (newline ++ lit "#define RENDERER_VERSION_MINOR 2" ++ newline ++
       lit "#define RENDERER_VERSION_PATCH 3" ++ newline).
    show_occurrence.
  - exists (lit "#define RENDERER_VERSION_MAJOR 1" ++ newline ++ lit "#define "),
      (lit " "), (lit "2"),
      (newline ++ lit "#define RENDERER_VERSION_PATCH 3" ++ newline).
    show_occurrence.
  - exists (lit "#define RENDERER_VERSION_MAJOR 1" ++ newline ++
            lit "#define RENDERER_VERSION_MINOR 2" ++ newline ++ lit "#define "),
      (lit " "), (lit "3"), newline.
    show_occurrence.
Defined.

(** The header of the example resolves to 1.2.3, *)
Example set_version_1_2_3 :
  set_version (cc := latin1)
    (env := sample_env (Returned sample_header) (Returned tt)) ConanRecipe [] =
  ([Loaded version_header],
   Returned (with_version ConanRecipe (Some (lit "1.2.3")))).
Proof. vm_compute. reflexivity. Qed.

(** and so does the header with its lines in another order. *)
Example set_version_1_2_3_reordered :
  version_of (cc := latin1)
    (lit "#define RENDERER_VERSION_PATCH 3" ++ newline ++
     lit "#define RENDERER_VERSION_MAJOR 1" ++ newline ++
     lit "#define RENDERER_VERSION_MINOR 2" ++ newline) = Some (lit "1.2.3").
Proof. vm_compute. reflexivity. Qed.

(** C2.  The header with the three markers is meant to resolve to
    major.minor.patch, and the code tries to: it loads the header and
    searches it.  But the load it calls does not exist in the library as
    installed, the call raises, the handler takes over, and the version is
    [None] for every source tree and every recipe, the tree with the
    header [MAJOR 1], [MINOR 2], [PATCH 3] included: a version that an
    earlier step had set is lost too. *)
Theorem set_version_with_installed_conan {cc : CharClasses}
    (files : string -> option str)
    (helpers : Helper -> Recipe -> list Event -> outcome unit)
    (self : Recipe) (tr : list Event) :
  exists self',
    set_version (env := installed_conan files helpers) self tr =
    (tr ++ [Loaded version_header], Returned self') /\
    version self' = None.
Proof.
  exists (with_version self None). split.
  - rewrite set_version_run. reflexivity.
  - reflexivity.
Qed.

(** On the source tree of the example, with a recipe that had a version. *)
Example set_version_loses_the_version :
  set_version (cc := latin1)
    (env := installed_conan sample_files (fun _ _ _ => Returned tt))
    (with_version ConanRecipe (Some (lit "0.9.0"))) [] =
  ([Loaded version_header], Returned ConanRecipe).
Proof. reflexivity. Qed.

(** *** A header of three lines, in any order *)

Section Lines.
Context {cc : CharClasses}.

Lemma search_here name s g :
  Re.match_here name s = Some g -> Re.search name s = Some g.
Proof. intros H. destruct s; simpl; now rewrite H. Qed.

Lemma search_step n0 name c s :
  n0 <> c -> Re.search (n0 :: name) (c :: s) = Re.search (n0 :: name) s.
Proof.
  intros H. simpl. unfold Re.match_here. simpl.
  destruct (N.eqb_spec n0 c); [contradiction | reflexivity].
Qed.

(** Text without the first character of the name cannot start a match. *)
Lemma search_skip n0 name s rest :
  Forall (fun c => c <> n0) s ->
  Re.search (n0 :: name) (s ++ rest) = Re.search (n0 :: name) rest.
Proof.
  induction 1 as [|c s Hc Hs IH]; [reflexivity|].
  simpl app. rewrite search_step by congruence. exact IH.
Qed.

Lemma whitespace_not_letter c :
  whitespace c = true -> c <> 82%N /\ c <> 69%N.
Proof.
  intros H. split; intros ->;
    rewrite whitespace_latin1 in H by reflexivity; discriminate.
Qed.

Lemma decimal_not_letter c : decimal c = true -> c <> 82%N.
Proof.
  intros H ->. rewrite decimal_latin1 in H by reflexivity. discriminate.
Qed.

Lemma run_no_R p s :
  (forall c, p c = true -> c <> 82%N) -> run p s ->
  Forall (fun c => c <> 82%N) s.
Proof.
  intros Hp [_ H]. induction H; constructor; auto.
Qed.

Lemma marker_head name :
  marker name -> exists tail, name = 82%N :: 69%N :: tail.
Proof.
  intros [<- | [<- | [<- | []]]]; eexists; reflexivity.
Qed.

Lemma literal_clash A name s rest (k : str -> option A) :
  clash name s = true -> Re.literal name (s ++ rest) k = None.
Proof.
  revert s. induction name as [|a name IH]; intros s H; [discriminate|].
  destruct s as [|c s]; [discriminate|]. simpl in *.
  destruct (N.eqb a c); [now apply IH | reflexivity].
Qed.

Lemma search_pass name s tail rest :
  clashes_inside name s tail = true ->
  Re.search name (s ++ tail ++ rest) = Re.search name (tail ++ rest).
Proof.
  induction s as [|c s IH]; intros H; [reflexivity|].
  simpl in H. apply andb_true_iff in H as [H1 H2].
  change ((c :: s) ++ tail ++ rest) with (c :: (s ++ tail ++ rest)).
  cbn [Re.search]. unfold Re.match_here at 1.
  replace (c :: s ++ tail ++ rest) with ((c :: s ++ tail) ++ rest)
    by (simpl; now rewrite <- app_assoc).
  rewrite (@literal_clash _ name (c :: s ++ tail) rest _ H1). now apply IH.
Qed.

Lemma search_step2 n0 n1 name w rest :
  n1 <> w -> n0 <> w ->
  Re.search (n0 :: n1 :: name) (n0 :: w :: rest) =
  Re.search (n0 :: n1 :: name) (w :: rest).
Proof.
  intros H1 H0. cbn [Re.search]. unfold Re.match_here at 1.
  cbn [Re.literal]. rewrite N.eqb_refl.
  destruct (N.eqb_spec n1 w); [contradiction | reflexivity].
Qed.

(** Another marker's name is passed over. *)
Lemma search_over_other name other w rest :
  marker name -> marker other -> name <> other ->
  w <> 69%N -> w <> 82%N ->
  Re.search name (other ++ w :: rest) = Re.search name (w :: rest).
Proof.
  intros Hn Ho Hne Hw Hw'.
  assert (Hlast : forall init,
             clashes_inside name init [82%N] = true ->
             Re.search name ((init ++ [82%N]) ++ w :: rest) =
             Re.search name (w :: rest)).
  { intros init H. rewrite <- app_assoc.
    rewrite (search_pass name init [82%N] (w :: rest) H).
    destruct (marker_head Hn) as (tail & ->). simpl app.
    apply search_step2; congruence. }
  destruct Hn as [<- | [<- | [<- | []]]];
    destruct Ho as [<- | [<- | [<- | []]]];
    try contradiction.
  - apply (Hlast (lit "RENDERER_VERSION_MINO")). vm_compute. reflexivity.
  - apply (search_pass MAJOR PATCH [] (w :: rest)). vm_compute. reflexivity.
  - apply (Hlast (lit "RENDERER_VERSION_MAJO")). vm_compute. reflexivity.
  - apply (search_pass MINOR PATCH [] (w :: rest)). vm_compute. reflexivity.
  - apply (Hlast (lit "RENDERER_VERSION_MAJO")). vm_compute. reflexivity.
  - apply (Hlast (lit "RENDERER_VERSION_MINO")). vm_compute. reflexivity.
Qed.

Lemma marker_skip name s rest :
  marker name -> Forall (fun c => c <> 82%N) s ->
  Re.search name (s ++ rest) = Re.search name rest.
Proof.
  intros Hn Hs. destruct (marker_head Hn) as (tail & ->).
  now apply search_skip.
Qed.

Lemma whitespace_run_no_R ws :
  run whitespace ws -> Forall (fun c => c <> 82%N) ws.
Proof. apply run_no_R. intros c H. now apply whitespace_not_letter. Qed.

Lemma decimal_run_no_R ds :
  run decimal ds -> Forall (fun c => c <> 82%N) ds.
Proof. apply run_no_R. intros c H. now apply decimal_not_letter. Qed.

Lemma newline_no_R : Forall (fun c => c <> 82%N) newline.
Proof. repeat constructor. discriminate. Qed.

(** The line of another marker is passed over, *)
Lemma line_skip name other before ws value rest :
  marker name -> marker other -> name <> other ->
  Forall (fun c => c <> 82%N) before -> run whitespace ws -> run decimal value ->
  Re.search name (marker_line before other ws value ++ rest) =
  Re.search name rest.
Proof.
  intros Hn Ho Hne Hb Hws Hv. unfold marker_line. rewrite <- !app_assoc.
  rewrite (marker_skip _ Hn Hb).
  pose proof (whitespace_run_no_R Hws) as Hws'.
  destruct Hws as [Hne' Hall]. destruct ws as [|w ws]; [contradiction|].
  simpl app. inversion Hall as [|? ? Hw _]; subst.
  destruct (whitespace_not_letter w Hw) as [Hw82 Hw69].
  rewrite (search_over_other _ Hn Ho Hne Hw69 Hw82).
  transitivity (Re.search name ((w :: ws) ++ value ++ newline ++ rest));
    [reflexivity|].
  rewrite (marker_skip _ Hn Hws').
  rewrite (marker_skip _ Hn (decimal_run_no_R Hv)).
  now rewrite (marker_skip _ Hn newline_no_R).
Qed.

(** and the marker's own line gives its value. *)
Lemma line_hit name before ws value rest :
  marker name ->
  Forall (fun c => c <> 82%N) before -> run whitespace ws -> run decimal value ->
  Re.search name (marker_line before name ws value ++ rest) = Some value.
Proof.
  intros Hn Hb Hws Hv. unfold marker_line. rewrite <- !app_assoc.
  rewrite (marker_skip _ Hn Hb). apply search_here, match_here_spec.
  exists ws, (newline ++ rest). split.
  - split; [reflexivity | split; assumption].
  - simpl. now rewrite decimal_latin1.
Qed.

Lemma permutation_of_three A (x y z : A) l :
  Permutation [x; y; z] l ->
  l = [x; y; z] \/ l = [x; z; y] \/ l = [y; x; z] \/
  l = [y; z; x] \/ l = [z; x; y] \/ l = [z; y; x].
Proof.
  intros H.
  assert (Hin : In x l) by (eapply Permutation_in; [exact H | now left]).
  apply in_split in Hin as (l1 & l2 & ->).
  apply Permutation_cons_app_inv in H.
  apply Permutation_length_2_inv in H.
  destruct H as [H | H]; destruct l1 as [|p [|q [|r l1]]]; simpl in H;
    try discriminate H; try (injection H; intros); subst; simpl; auto 7.
Qed.

Lemma markers_are_markers : marker MAJOR /\ marker MINOR /\ marker PATCH.
Proof.
  repeat split; [left | right; left | right; right; left]; reflexivity.
Qed.

Lemma markers_differ :
  MAJOR <> MINOR /\ MAJOR <> PATCH /\ MINOR <> PATCH.
Proof. repeat split; discriminate. Qed.

(** X4. For a text of three lines, one for each marker (text without a
    capital R, the marker, whitespace, a number, the line end), the three
    searches find the three numbers and the version the text resolves to
    is the three of them joined by dots, in whichever of the six orders
    the lines stand. *)
Theorem version_of_any_line_order pa pb pc wa wb wc a b c lines :
  Forall (fun x => x <> 82%N) pa -> Forall (fun x => x <> 82%N) pb ->
  Forall (fun x => x <> 82%N) pc ->
  run whitespace wa -> run whitespace wb -> run whitespace wc ->
  run decimal a -> run decimal b -> run decimal c ->
  Permutation [marker_line pa MAJOR wa a; marker_line pb MINOR wb b;
               marker_line pc PATCH wc c] lines ->
  version_of (List.concat lines) = Some (a ++ lit "." ++ b ++ lit "." ++ c).
Proof.
  intros Hpa Hpb Hpc Hwa Hwb Hwc Ha Hb Hc Hperm.
  destruct markers_are_markers as (M1 & M2 & M3).
  destruct markers_differ as (D1 & D2 & D3).
  assert (D1' : MINOR <> MAJOR) by congruence.
  assert (D2' : PATCH <> MAJOR) by congruence.
  assert (D3' : PATCH <> MINOR) by congruence.
  unfold version_of.
  destruct (permutation_of_three Hperm) as [-> | [-> | [-> | [-> | [-> | ->]]]]];
    cbn [List.concat];
    repeat first [rewrite line_hit by assumption
                 | rewrite line_skip by assumption];
    reflexivity.
Qed.

End Lines.

(** C9. A marker is looked for anywhere in the text.  The first place
    where its name is followed by whitespace and digits gives the
    component, which is the whole digit run of that place as written:
    whatever stands before the name, after the digits or at a later
    place of the same name does not count. *)
Theorem version_from_first_occurrences {cc : CharClasses} {env : Environment}
    (self : Recipe) (tr : list Event) (data a b c : str) :
  load_outcome version_header tr = Returned data ->
  first_match MAJOR data a -> first_match MINOR data b ->
  first_match PATCH data c ->
  set_version self tr =
  (tr ++ [Loaded version_header],
   Returned (with_version self (Some (a ++ lit "." ++ b ++ lit "." ++ c)))).
Proof.
  intros Hload Ha Hb Hc. rewrite set_version_run, Hload.
  replace (version_of data) with (Some (a ++ lit "." ++ b ++ lit "." ++ c));
    [reflexivity|].
  symmetry. apply version_of_some. exists a, b, c. auto.
Qed.

Lemma version_from_first_occurrences_witness :
  set_version (cc := latin1)
    (env := sample_env (Returned untidy_header) (Returned tt)) ConanRecipe [] =
  ([Loaded version_header],
   Returned (with_version ConanRecipe (Some (lit "007.20.3")))).
Proof.
  apply (@version_from_first_occurrences latin1
           (sample_env (Returned untidy_header) (Returned tt)) ConanRecipe []
           untidy_header (lit "007") (lit "20") (lit "3")).
  - reflexivity.
  - apply search_first. vm_compute. reflexivity.
  - apply search_first. vm_compute. reflexivity.
  - apply search_first. vm_compute. reflexivity.
Defined.

(** The searches of the example: leading zeros are kept, [abc], [rc1] and
    the second major definition are not looked at, and the whitespace
    before a value may hold a line end. *)
Example untidy_searches :
  Re.search (cc := latin1) MAJOR untidy_header = Some (lit "007") /\
  Re.search (cc := latin1) MINOR untidy_header = Some (lit "20") /\
  Re.search (cc := latin1) PATCH untidy_header = Some (lit "3").
Proof. vm_compute. auto. Qed.

(** C10. Whatever recipe object and whatever history it is called with,
    [set_version] makes exactly one request, the load of
    [projects/core/include/core/version.hpp], and the version it stores is
    the one given by the first matches of [RENDERER_VERSION_MAJOR],
    [RENDERER_VERSION_MINOR] and [RENDERER_VERSION_PATCH] in that file: the
    path and the names are constants of the program. *)
Theorem set_version_fixed_source {cc : CharClasses} {env : Environment}
    (self : Recipe) (tr : list Event) :
  let path := "projects/core/include/core/version.hpp" in
  exists v,
    set_version self tr = (tr ++ [Loaded path], Returned (with_version self v))
    /\ forall x,
         v = Some x <->
         exists data a b c,
           load_outcome path tr = Returned data /\
           first_match (lit "RENDERER_VERSION_MAJOR") data a /\
           first_match (lit "RENDERER_VERSION_MINOR") data b /\
           first_match (lit "RENDERER_VERSION_PATCH") data c /\
           x = a ++ lit "." ++ b ++ lit "." ++ c.
Proof.
  intros path. rewrite set_version_run. fold path.
  change version_header with path.
  eexists. split; [reflexivity|]. intros x.
  destruct (load_outcome path tr) as [data|e].
  - rewrite version_of_some. split.
    + intros (a & b & c & H). exists data, a, b, c. tauto.
    + intros (data' & a & b & c & Hd & H). injection Hd as <-.
      exists a, b, c. tauto.
  - split; [discriminate|]. intros (data & a & b & c & Hd & _). discriminate.
Qed.

(** ** The phases that hand over to the library *)

Section PhaseFacts.
Context {env : Environment}.

(** [generate] in one step. *)
Lemma generate_run (self : Recipe) (tr : list Event) :
  generate self tr =
  match helper_outcome ToolchainGenerate self tr with
  | Returned _ =>
      (tr ++ [Called ToolchainGenerate; Called DepsGenerate],
       helper_outcome DepsGenerate self (tr ++ [Called ToolchainGenerate]))
  | Raised e => (tr ++ [Called ToolchainGenerate], Raised e)
  end.
Proof.
  unfold generate, bind, Conan.toolchain_generate, Conan.deps_generate,
    Conan.call. cbn [Conan.toolchain_conanfile Conan.deps_conanfile].
  destruct (helper_outcome ToolchainGenerate self tr); [|reflexivity].
  now rewrite <- app_assoc.
Qed.

(** [build] in one step. *)
Lemma build_run (self : Recipe) (tr : list Event) :
  build self tr =
  match helper_outcome Configure self tr with
  | Returned _ =>
      (tr ++ [Called Configure; Called Build],
       helper_outcome Build self (tr ++ [Called Configure]))
  | Raised e => (tr ++ [Called Configure], Raised e)
  end.
Proof.
  unfold build, bind, Conan.cmake_configure, Conan.cmake_build, Conan.call.
  cbn [Conan.cmake_conanfile].
  destruct (helper_outcome Configure self tr); [|reflexivity].
  now rewrite <- app_assoc.
Qed.

End PhaseFacts.

(** ** The build phase *)

(** C4, as the spec has it, does not hold: when configure fails, the error
    that [build] raises is the one the helper raised, whatever it is, and
    need not be one that carries the phase name, the exit code and the
    captured output. *)
Lemma configure_failure_not_wrapped :
  ~ (forall (env : Environment) (self : Recipe) (tr : list Event) (e : exn),
       helper_outcome Configure self tr = Raised e ->
       exists code output,
         snd (build self tr) =
         Raised (BuildInvocationError "configure" code output)).
Proof.
  intros H.
  destruct (H (sample_env (Returned sample_header) (Raised configure_failed))
              ConanRecipe [] configure_failed eq_refl) as (code & output & E).
  discriminate E.
Qed.

(** C4, amended.  [build] calls configure and then build, each once and
    in that order.  When the configure call fails, the build call is not
    made, nothing is called again, and the error that [build] raises is the
    very error of the configure call. *)
Theorem build_configure_then_build {env : Environment}
    (self : Recipe) (tr : list Event) :
  (helper_outcome Configure self tr = Returned tt ->
   build self tr =
   (tr ++ [Called Configure; Called Build],
    helper_outcome Build self (tr ++ [Called Configure]))) /\
  (forall e, helper_outcome Configure self tr = Raised e ->
             build self tr = (tr ++ [Called Configure], Raised e)).
Proof.
  rewrite build_run. split.
  - now intros ->.
  - now intros e ->.
Qed.

Lemma build_configure_then_build_witness :
  build (env := sample_env (Returned sample_header) (Raised configure_failed))
    ConanRecipe [] =
  ([Called Configure], Raised configure_failed).
Proof.
  apply (@build_configure_then_build
           (sample_env (Returned sample_header) (Raised configure_failed))
           ConanRecipe []).
  reflexivity.
Defined.

(** When configure returns, both calls are made, in that order. *)
Example build_runs_both :
  build (env := sample_env (Returned sample_header) (Returned tt))
    ConanRecipe [] =
  ([Called Configure; Called Build], Returned tt).
Proof. reflexivity. Qed.

(** ** The order of the phases *)

(** C5, as the spec has it, does not hold: [generate] on a recipe for
    which [layout] never ran, and [build] on a recipe for which [generate]
    never ran, are not refused with a lifecycle error. *)
Lemma phases_out_of_order_not_refused :
  ~ (forall (env : Environment) (self : Recipe) (tr : list Event),
       ~ In (Called CMakeLayout) tr ->
       exists tr' message,
         generate self tr =
         (tr', Raised (Error "LifecycleOrderError" message))) /\
  ~ (forall (env : Environment) (self : Recipe) (tr : list Event),
       ~ In (Called DepsGenerate) tr ->
       exists tr' message,
         build self tr = (tr', Raised (Error "LifecycleOrderError" message))).
Proof.
  split; intros H;
    destruct (H (sample_env (Returned sample_header) (Returned tt))
                ConanRecipe [] (fun F => F)) as (tr' & message & E);
    discriminate E.
Qed.

(** With helpers that return, [generate] as the first call of all
    returns. *)
Example generate_without_layout :
  generate (env := sample_env (Returned sample_header) (Returned tt))
    ConanRecipe [] =
  ([Called ToolchainGenerate; Called DepsGenerate], Returned tt).
Proof. reflexivity. Qed.

(** C5, amended.  The phase methods look at no lifecycle state.  In any
    history, [layout] calls the layout helper and nothing else, [generate]
    calls the toolchain generator and then, if that returned, the
    dependency generator, and [build] calls configure and then, if that
    returned, build; a phase ends as the last helper it called ended, and
    no phase makes the calls of another.  Called in the order
    [set_version], [layout], [generate], [build] in an environment where
    every helper returns, all four return. *)
Theorem phases_not_guarded {cc : CharClasses} {env : Environment}
    (self : Recipe) (tr : list Event) :
  layout self tr = (tr ++ [Called CMakeLayout], helper_outcome CMakeLayout self tr)
  /\ generate self tr =
     match helper_outcome ToolchainGenerate self tr with
     | Returned _ =>
         (tr ++ [Called ToolchainGenerate; Called DepsGenerate],
          helper_outcome DepsGenerate self (tr ++ [Called ToolchainGenerate]))
     | Raised e => (tr ++ [Called ToolchainGenerate], Raised e)
     end
  /\ build self tr =
     match helper_outcome Configure self tr with
     | Returned _ =>
         (tr ++ [Called Configure; Called Build],
          helper_outcome Build self (tr ++ [Called Configure]))
     | Raised e => (tr ++ [Called Configure], Raised e)
     end
  /\ ((forall h r t, helper_outcome h r t = Returned tt) ->
      exists self',
        (self' <- set_version self ;;
         layout self' ;; generate self' ;; build self' ;; ret self') tr =
        (tr ++ [Loaded version_header; Called CMakeLayout;
                Called ToolchainGenerate; Called DepsGenerate;
                Called Configure; Called Build],
         Returned self')).
Proof.
  split; [reflexivity|]. split; [apply generate_run|].
  split; [apply build_run|].
  intros Hh. eexists. unfold bind. rewrite set_version_run. cbv beta iota.
  unfold layout, Conan.cmake_layout, Conan.call. rewrite Hh. cbv beta iota.
  rewrite generate_run, !Hh. cbv beta iota.
  rewrite build_run, !Hh. unfold ret. rewrite <- !app_assoc. reflexivity.
Qed.

(** ** The dependency lists *)

(** As the class body has them, no package name is repeated within a list,
    and no reference of [build_requires] is among [requires]. *)
Lemma declared_dependencies :
  NoDup (map package_name (requires ConanRecipe)) /\
  NoDup (map package_name (build_requires ConanRecipe)) /\
  forall ref, In ref (build_requires ConanRecipe) ->
              ~ In ref (requires ConanRecipe).
Proof.
  split; [|split].
  - cbv [ConanRecipe requires map].
    repeat (constructor; [simpl; intuition discriminate|]); constructor.
  - cbv [ConanRecipe build_requires map].
    repeat (constructor; [simpl; intuition discriminate|]); constructor.
  - cbv [ConanRecipe requires build_requires]. simpl.
    intros ref [<- | [<- | []]]; intuition discriminate.
Qed.

(** ** More on version discovery *)

Section VersionShape.
Context {cc : CharClasses}.

Lemma search_is_run name s ds : Re.search name s = Some ds -> run decimal ds.
Proof.
  intros H. apply search_first in H.
  destruct H as (pre & ws & post & (_ & _ & Hds) & _). exact Hds.
Qed.

Lemma dot_not_decimal : decimal 46%N = false.
Proof. now rewrite decimal_latin1. Qed.

Lemma count_dots_run ds :
  Forall (fun c => decimal c = true) ds -> count_occ N.eq_dec ds 46%N = 0.
Proof.
  induction 1 as [|c ds Hc _ IH]; [reflexivity|]. simpl.
  destruct (N.eq_dec c 46) as [->|_]; [|exact IH].
  rewrite dot_not_decimal in Hc. discriminate.
Qed.

(** A digit run ends at the first dot: two texts that start with a digit
    run and a dot agree on the run and on the rest. *)
Lemma split_at_dot a a' r r' :
  Forall (fun c => decimal c = true) a ->
  Forall (fun c => decimal c = true) a' ->
  a ++ 46%N :: r = a' ++ 46%N :: r' -> a = a' /\ r = r'.
Proof.
  intros Ha. revert a'. induction Ha as [|c a Hc Ha IH]; intros a' Ha' E.
  - destruct Ha' as [|c' a' Hc' _]; simpl in E.
    + injection E as <-. auto.
    + injection E as <- _. rewrite dot_not_decimal in Hc'. discriminate.
  - destruct Ha' as [|c' a' Hc' Ha']; simpl in E.
    + injection E as -> _. rewrite dot_not_decimal in Hc. discriminate.
    + injection E as <- E. destruct (IH a' Ha' E) as [<- <-]. auto.
Qed.

Lemma format3_injective a b c a' b' c' :
  run decimal a -> run decimal b -> run decimal a' -> run decimal b' ->
  a ++ lit "." ++ b ++ lit "." ++ c = a' ++ lit "." ++ b' ++ lit "." ++ c' ->
  a = a' /\ b = b' /\ c = c'.
Proof.
  intros [_ Ha] [_ Hb] [_ Ha'] [_ Hb'] E.
  change (lit ".") with [46%N] in E. simpl in E.
  destruct (@split_at_dot a a' _ _ Ha Ha' E) as [<- E'].
  destruct (@split_at_dot b b' _ _ Hb Hb' E') as [<- <-]. auto.
Qed.

Lemma literal_ext A name s (k k' : str -> option A) :
  (forall r, k r = k' r) -> Re.literal name s k = Re.literal name s k'.
Proof.
  intros H. revert s. induction name as [|a name IH]; intros s; simpl.
  - apply H.
  - destruct s as [|c s]; [reflexivity|]. destruct (N.eqb a c); auto.
Qed.

Lemma match_here_scan name s :
  Re.match_here name s = Re.literal name s value_here.
Proof.
  unfold Re.match_here. apply literal_ext. intros r. apply plus_value.
Qed.

Lemma drop_while_nil p s :
  drop_while p s = [] -> Forall (fun c => p c = true) s.
Proof.
  induction s as [|c s IH]; simpl; [constructor|].
  destruct (p c) eqn:E; [|discriminate]. intros H. constructor; auto.
Qed.

Lemma drop_while_app p s t :
  drop_while p s <> [] -> drop_while p (s ++ t) = drop_while p s ++ t.
Proof.
  induction s as [|c s IH]; simpl; [contradiction|].
  destruct (p c); [exact IH | reflexivity].
Qed.

(** Text added after [r] gives [r] a value only if [r] is all
    whitespace. *)
Lemma value_here_app_none r t g :
  value_here r = None -> value_here (r ++ t) = Some g ->
  Forall (fun c => whitespace c = true) r.
Proof.
  unfold value_here. destruct r as [|c r]; [constructor|].
  cbn [app starts_with]. destruct (whitespace c) eqn:Hc; [|discriminate].
  intros Hn Hs.
  destruct (drop_while whitespace (c :: r)) as [|x d] eqn:Hd.
  - now apply drop_while_nil.
  - exfalso.
    change (c :: r ++ t) with ((c :: r) ++ t) in Hs.
    rewrite drop_while_app, Hd in Hs by (rewrite Hd; discriminate).
    unfold digits_here in *. simpl in *.
    destruct (decimal x); discriminate.
Qed.

(** Text added after [s] makes the pattern match at the start only if
    [s] is too short to hold the name or is the name and whitespace. *)
Lemma match_here_app_none name s t g :
  Re.match_here name s = None -> Re.match_here name (s ++ t) = Some g ->
  List.length s < List.length name \/
  exists r, s = name ++ r /\ Forall (fun c => whitespace c = true) r.
Proof.
  rewrite !match_here_scan. revert s.
  induction name as [|a name IH]; intros s; simpl.
  - intros Hn Hs. right. exists s. split; [reflexivity|].
    eapply value_here_app_none; eassumption.
  - destruct s as [|c s]; simpl; [intros _ _; left; lia|].
    destruct (N.eqb_spec a c) as [->|_]; [|discriminate].
    intros Hn Hs. destruct (IH s Hn Hs) as [H | (r & -> & H)].
    + left. lia.
    + right. exists r. auto.
Qed.

Lemma occurrence_length name s pre ws ds post :
  occurrence name s pre ws ds post ->
  List.length pre + List.length name + 2 <= List.length s.
Proof.
  intros (-> & (Hws & _) & (Hds & _)). rewrite !length_app.
  destruct ws; [contradiction|]. destruct ds; [contradiction|]. simpl. lia.
Qed.

(** A place found later in [s] rules both cases out. *)
Lemma later_match_blocks name c s t ds :
  Re.match_here name (c :: s) = None -> Re.search name s = Some ds ->
  Re.match_here name ((c :: s) ++ t) = None.
Proof.
  intros Hn Hs.
  destruct (Re.match_here name ((c :: s) ++ t)) as [g|] eqn:Hg; [|reflexivity].
  exfalso. apply search_first in Hs.
  destruct Hs as (pre & ws & post & Hocc & _).
  pose proof (occurrence_length Hocc) as Hlen.
  destruct (@match_here_app_none name (c :: s) t g Hn Hg) as [H | (r & E & Hr)].
  - simpl in H. lia.
  - destruct Hocc as (-> & _ & (Hne & Hds)).
    assert (E' : ((c :: pre) ++ name ++ ws) ++ (ds ++ post) = name ++ r).
    { rewrite <- E. simpl. now rewrite <- !app_assoc. }
    apply app_eq_app in E' as (l & [(E1 & E2) | (E1 & E2)]).
    + subst r. apply Forall_app in Hr as (_ & Hr).
      apply Forall_app in Hr as (Hr & _).
      destruct ds as [|d ds]; [contradiction|].
      inversion Hr as [|? ? Hd1 _]. inversion Hds as [|? ? Hd2 _]. subst.
      rewrite (whitespace_not_decimal d Hd1) in Hd2. discriminate.
    + apply (f_equal (@List.length _)) in E1. rewrite !length_app in E1.
      simpl in E1. lia.
Qed.

Lemma search_nil name : Re.search name [] = None.
Proof.
  destruct (Re.search name []) as [ds|] eqn:E; [|reflexivity].
  apply search_first in E. destruct E as (pre & ws & post & Hocc & _).
  now apply occurrence_nil in Hocc.
Qed.

Lemma run_last p ds :
  run p ds -> exists ds0 d, ds = ds0 ++ [d] /\ p d = true.
Proof.
  intros [Hne Hall]. destruct (exists_last Hne) as (ds0 & d & ->).
  exists ds0, d. split; [reflexivity|].
  apply Forall_app in Hall as (_ & Hd). now inversion Hd.
Qed.

(** What is found in [s] is found in [s ++ t], unless the digits of the
    match end [s] and [t] goes on with digits. *)
Lemma search_app name s t ds :
  Re.search name s = Some ds ->
  starts_with decimal t = false \/
  (exists s0 z, s = s0 ++ [z] /\ decimal z = false) ->
  Re.search name (s ++ t) = Some ds.
Proof.
  induction s as [|c s IH]; intros H Hend.
  - rewrite search_nil in H. discriminate.
  - cbn [Re.search] in H.
    destruct (Re.match_here name (c :: s)) as [g|] eqn:Hm.
    + injection H as ->. apply search_here.
      apply match_here_spec in Hm as (ws & post & (E & Hws & Hds) & Hp).
      apply match_here_spec. exists ws, (post ++ t). split.
      * split; [|split; assumption]. rewrite E. simpl.
        now rewrite <- !app_assoc.
      * destruct post as [|x post]; [|exact Hp].
        destruct Hend as [Ht | (s0 & z & Es & Hz)]; [exact Ht|].
        exfalso. destruct (run_last Hds) as (ds0 & d & -> & Hd).
        rewrite E in Es. simpl in Es. rewrite app_nil_r, !app_assoc in Es.
        apply app_inj_tail in Es as (_ & <-). rewrite Hd in Hz. discriminate.
    + change ((c :: s) ++ t) with (c :: (s ++ t)). cbn [Re.search].
      change (c :: (s ++ t)) with ((c :: s) ++ t).
      rewrite (@later_match_blocks name c s t ds Hm H). apply IH; [exact H|].
      destruct Hend as [Ht | (s0 & z & Es & Hz)]; [now left|right].
      destruct s0 as [|c0 s0]; simpl in Es; injection Es as _ Es.
      * subst s. rewrite search_nil in H. discriminate.
      * exists s0, z. auto.
Qed.

End VersionShape.

(** X1. A version that [set_version] stores is well formed: three
    non-empty runs of decimal digits joined by dots, with no other dot in
    it. *)
Theorem resolved_version_well_formed {cc : CharClasses} {env : Environment}
    (self self' : Recipe) (tr : list Event) (v : str) :
  snd (set_version self tr) = Returned self' ->
  version self' = Some v ->
  (exists a b c, v = a ++ lit "." ++ b ++ lit "." ++ c /\
                 run decimal a /\ run decimal b /\ run decimal c) /\
  count_occ N.eq_dec v 46%N = 2.
Proof.
  rewrite set_version_run. cbn [snd]. intros H Hv. injection H as <-.
  cbn [version with_version] in Hv.
  destruct (load_outcome version_header tr) as [data|e]; [|discriminate].
  unfold version_of in Hv.
  destruct (Re.search MAJOR data) as [a|] eqn:Ea; [|discriminate].
  destruct (Re.search MINOR data) as [b|] eqn:Eb; [|discriminate].
  destruct (Re.search PATCH data) as [c|] eqn:Ec; [|discriminate].
  injection Hv as <-.
  apply search_is_run in Ea, Eb, Ec. split.
  - exists a, b, c. auto.
  - pose proof (@count_dots_run cc a (proj2 Ea)) as Ca.
    pose proof (@count_dots_run cc b (proj2 Eb)) as Cb.
    pose proof (@count_dots_run cc c (proj2 Ec)) as Cc.
    change (lit ".") with [46%N]. unfold str, char in *.
    rewrite count_occ_app, Ca. cbn [app count_occ].
    destruct (N.eq_dec 46 46) as [_|F]; [|contradiction].
    rewrite count_occ_app, Cb. cbn [app count_occ].
    destruct (N.eq_dec 46 46) as [_|F]; [|contradiction].
    now rewrite Cc.
Qed.

Lemma resolved_version_well_formed_witness :
  (exists a b c, lit "007.20.3" = a ++ lit "." ++ b ++ lit "." ++ c /\
                 run (@decimal latin1) a /\ run (@decimal latin1) b /\
                 run (@decimal latin1) c) /\
  count_occ N.eq_dec (lit "007.20.3") 46%N = 2.
Proof.
  apply (@resolved_version_well_formed latin1
           (sample_env (Returned untidy_header) (Returned tt))
           ConanRecipe (with_version ConanRecipe (Some (lit "007.20.3"))) []).
  - vm_compute. reflexivity.
  - reflexivity.
Defined.

(** X2. The version tells the three components apart: two headers
    resolve to the same version only if they agree on the value of every
    marker, leading zeros included. *)
Theorem same_version_same_components {cc : CharClasses}
    (data data' v : str) :
  version_of data = Some v -> version_of data' = Some v ->
  Re.search MAJOR data = Re.search MAJOR data' /\
  Re.search MINOR data = Re.search MINOR data' /\
  Re.search PATCH data = Re.search PATCH data'.
Proof.
  unfold version_of.
  destruct (Re.search MAJOR data) as [a|] eqn:Ea; [|discriminate].
  destruct (Re.search MINOR data) as [b|] eqn:Eb; [|discriminate].
  destruct (Re.search PATCH data) as [c|] eqn:Ec; [|discriminate].
  destruct (Re.search MAJOR data') as [a'|] eqn:Ea'; [|discriminate].
  destruct (Re.search MINOR data') as [b'|] eqn:Eb'; [|discriminate].
  destruct (Re.search PATCH data') as [c'|] eqn:Ec'; [|discriminate].
  intros H H'. injection H as <-. injection H' as H'.
  apply search_is_run in Ea, Eb, Ea', Eb'.
  destruct (@format3_injective cc a' b' c' a b c Ea' Eb' Ea Eb H') as (-> & -> & ->).
  auto.
Qed.

Lemma same_version_same_components_witness :
  Re.search (cc := latin1) MAJOR sample_header =
  Re.search (cc := latin1) MAJOR
    (lit "RENDERER_VERSION_PATCH 3 RENDERER_VERSION_MINOR 2 RENDERER_VERSION_MAJOR 1")
  /\ Re.search (cc := latin1) MINOR sample_header =
     Re.search (cc := latin1) MINOR
       (lit "RENDERER_VERSION_PATCH 3 RENDERER_VERSION_MINOR 2 RENDERER_VERSION_MAJOR 1")
  /\ Re.search (cc := latin1) PATCH sample_header =
     Re.search (cc := latin1) PATCH
       (lit "RENDERER_VERSION_PATCH 3 RENDERER_VERSION_MINOR 2 RENDERER_VERSION_MAJOR 1").
Proof.
  apply (@same_version_same_components latin1 sample_header
           (lit "RENDERER_VERSION_PATCH 3 RENDERER_VERSION_MINOR 2 RENDERER_VERSION_MAJOR 1")
           (lit "1.2.3")).
  - vm_compute. reflexivity.
  - vm_compute. reflexivity.
Defined.



(** X5. Text added at the end of the header does not change a version
    that resolves, provided the header ends in a character that is not a
    digit (a line end, say) or the added text does not start with one. *)
Theorem version_stable_under_append {cc : CharClasses}
    (env env' : Environment) (self : Recipe) (tr tr' : list Event)
    (data more v : str) :
  @load_outcome env version_header tr = Returned data ->
  @load_outcome env' version_header tr' = Returned (data ++ more) ->
  starts_with decimal more = false \/
  (exists d z, data = d ++ [z] /\ decimal z = false) ->
  snd (@set_version cc env self tr) = Returned (with_version self (Some v)) ->
  snd (@set_version cc env' self tr') = Returned (with_version self (Some v)).
Proof.
  intros Hl Hl' Hend. rewrite !set_version_run, Hl, Hl'. cbn [snd].
  intros H. assert (Hv : version_of data = Some v).
  { injection H as H. exact H. }
  clear H. unfold version_of in *.
  destruct (Re.search MAJOR data) as [a|] eqn:Ea; [|discriminate].
  destruct (Re.search MINOR data) as [b|] eqn:Eb; [|discriminate].
  destruct (Re.search PATCH data) as [c|] eqn:Ec; [|discriminate].
  rewrite (@search_app cc MAJOR data more a Ea Hend),
    (@search_app cc MINOR data more b Eb Hend),
    (@search_app cc PATCH data more c Ec Hend).
  now rewrite Hv.
Qed.

Lemma version_stable_under_append_witness :
  snd (@set_version latin1
         (sample_env (Returned (sample_header ++ lit "99 RENDERER_VERSION_MAJOR 7"))
            (Returned tt))
         ConanRecipe []) =
  Returned (with_version ConanRecipe (Some (lit "1.2.3"))).
Proof.
  apply (@version_stable_under_append latin1
           (sample_env (Returned sample_header) (Returned tt))
           (sample_env (Returned (sample_header ++ lit "99 RENDERER_VERSION_MAJOR 7"))
              (Returned tt))
           ConanRecipe [] [] sample_header (lit "99 RENDERER_VERSION_MAJOR 7")
           (lit "1.2.3")).
  - reflexivity.
  - reflexivity.
  - right. exists (lit "#define RENDERER_VERSION_MAJOR 1" ++ newline ++
                   lit "#define RENDERER_VERSION_MINOR 2" ++ newline ++
                   lit "#define RENDERER_VERSION_PATCH 3"), 10%N.
    split; reflexivity.
  - vm_compute. reflexivity.
Defined.

(** X6. In the patterns of [set_version] the repetitions never have to
    give characters back: the pattern matches at a position exactly when
    the name is followed by whitespace and the longest whitespace run is
    followed by a digit, and the group is then the longest digit run. *)
Theorem match_without_backtracking {cc : CharClasses} (name s ds : str) :
  Re.match_here name s = Some ds <->
  exists rest,
    s = name ++ rest /\
    starts_with whitespace rest = true /\
    starts_with decimal (drop_while whitespace rest) = true /\
    ds = take_while decimal (drop_while whitespace rest).
Proof.
  rewrite match_here_value. unfold value_here, digits_here.
  split; intros (rest & E & H); exists rest; (split; [exact E|]).
  - destruct (starts_with whitespace rest); [|discriminate].
    destruct (starts_with decimal (drop_while whitespace rest));
      [|discriminate].
    injection H as <-. auto.
  - destruct H as (-> & -> & ->). reflexivity.
Qed.

(** *** A definition that is not a number *)

Section Malformed.
Context {cc : CharClasses}.









End Malformed.



(** The header of the example, read with its lines in the order patch,
    major, minor. *)
Lemma version_of_any_line_order_witness :
  version_of (cc := latin1)
    (List.concat
       [marker_line (lit "#define ") PATCH (lit " ") (lit "3");
        marker_line (lit "#define ") MAJOR (lit " ") (lit "1");
        marker_line (lit "#define ") MINOR (lit " ") (lit "2")]) =
  Some (lit "1" ++ lit "." ++ lit "2" ++ lit "." ++ lit "3").
Proof.
  apply (@version_of_any_line_order latin1
           (lit "#define ") (lit "#define ") (lit "#define ")
           (lit " ") (lit " ") (lit " ") (lit "1") (lit "2") (lit "3")
           [marker_line (lit "#define ") PATCH (lit " ") (lit "3");
            marker_line (lit "#define ") MAJOR (lit " ") (lit "1");
            marker_line (lit "#define ") MINOR (lit " ") (lit "2")]).
  - repeat constructor; discriminate.
  - repeat constructor; discriminate.
  - repeat constructor; discriminate.
  - show_run.
  - show_run.
  - show_run.
  - show_run.
  - show_run.
  - show_run.
  - apply Permutation_sym.
    exact (Permutation_cons_append
             [marker_line (lit "#define ") MAJOR (lit " ") (lit "1");
              marker_line (lit "#define ") MINOR (lit " ") (lit "2")]
             (marker_line (lit "#define ") PATCH (lit " ") (lit "3"))).
Defined.

(** ** The phases one after the other *)

(** X8. The four methods called one after the other: the header is
    requested once, and whether that load returns or raises the run goes
    on with the version that [set_version] stored; the five helpers are
    then called in the order layout, toolchain, dependencies, configure,
    build, each with that recipe, up to the first that raises.  The run
    raises exactly the error of that helper, and returns when none
    raises. *)
Theorem run_is_calls_in_order {cc : CharClasses} {env : Environment}
    (self : Recipe) (tr : list Event) :
  exists self',
    set_version self tr = (tr ++ [Loaded version_header], Returned self') /\
    (self' <- set_version self ;;
     layout self' ;; generate self' ;; build self' ;; ret self') tr =
    (fst (call_in_order
            [CMakeLayout; ToolchainGenerate; DepsGenerate; Configure; Build]
            self' (tr ++ [Loaded version_header])),
     match snd (call_in_order
                  [CMakeLayout; ToolchainGenerate; DepsGenerate; Configure;
                   Build]
                  self' (tr ++ [Loaded version_header])) with
     | Returned _ => Returned self'
     | Raised e => Raised e
     end).
Proof.
  eexists. split; [apply set_version_run|].
  unfold bind. rewrite set_version_run. cbv beta iota.
  set (self' := with_version self _).
  unfold layout, Conan.cmake_layout, Conan.call. cbn [call_in_order].
  rewrite <- ?app_assoc. cbn [app].
  destruct (helper_outcome CMakeLayout self' _); cbv beta iota;
    [|reflexivity].
  rewrite generate_run. rewrite <- ?app_assoc. cbn [app].
  destruct (helper_outcome ToolchainGenerate self' _); cbv beta iota;
    [|reflexivity].
  destruct (helper_outcome DepsGenerate self' _); cbv beta iota;
    [|reflexivity].
  rewrite build_run. rewrite <- ?app_assoc. cbn [app].
  destruct (helper_outcome Configure self' _); cbv beta iota;
    [|reflexivity].
  destruct (helper_outcome Build self' _); reflexivity.
Qed.

(** The run of the example: the header is missing, the version stays
    unknown, and the run goes on until configure fails. *)
Example run_with_missing_header :
  (self' <- set_version (cc := latin1) (env := broken_env) ConanRecipe ;;
   layout (env := broken_env) self' ;;
   generate (env := broken_env) self' ;;
   build (env := broken_env) self' ;; ret self') [] =
  ([Loaded version_header; Called CMakeLayout; Called ToolchainGenerate;
    Called DepsGenerate; Called Configure],
   Raised configure_failed).
Proof. reflexivity. Qed.
